(** * Margin-based F1 score for breakpoint detection

    Shallow embedding of [F1ScoreBreakpoints._evaluate]
    (sktime/performance_metrics/detection/_f1score.py).

    Breakpoint positions, the margin and the score are exact rationals
    ([Q]); the column [y["ilocs"].values] is a [list Q].  Counters and
    indices are [nat].  The [while] loop is run with fuel, and the fuel
    the driver passes is shown to be enough. *)

From Stdlib Require Import ZArith QArith Qabs Lqa Lia List Bool Arith.
From Stdlib Require Import Permutation Sorted.
From Stdlib Require String Ascii DecimalString.
Import ListNotations.

Local Open Scope Q_scope.

Module F1ScoreBreakpoints.

(** Strict comparison on rationals, as a boolean. *)
Definition Qlt_bool (x y : Q) : bool := negb (Qle_bool y x).

(** An [int] used in a true division. *)
Definition of_int (n : nat) : Q := inject_Z (Z.of_nat n).

(** [sorted(xs)]: a stable ascending sort. *)
Fixpoint insort (x : Q) (l : list Q) : list Q :=
  match l with
  | [] => [x]
  | h :: t => if Qle_bool x h then x :: h :: t else h :: insort x t
  end.

Fixpoint sorted (l : list Q) : list Q :=
  match l with
  | [] => []
  | x :: t => insort x (sorted t)
  end.

(** The guard of the [while] loop:
    [pred_index < len(pred) and pred[pred_index] < true_bkpt - margin]. *)
Definition behind (pred : list Q) (bound : Q) (pred_index : nat) : bool :=
  (pred_index <? length pred)%nat && Qlt_bool (nth pred_index pred 0) bound.

(** The [while] loop, [pred_index += 1] as long as the guard holds. *)
Fixpoint advance (fuel : nat) (pred : list Q) (bound : Q) (pred_index : nat)
  : nat :=
  match fuel with
  | O => pred_index
  | S fuel' =>
      if behind pred bound pred_index
      then advance fuel' pred bound (S pred_index)
      else pred_index
  end.

(** The test of the [if] that follows the loop:
    [pred_index < len(pred) and abs(pred[pred_index] - true_bkpt) < margin]. *)
Definition within (margin : Q) (pred : list Q) (true_bkpt : Q)
  (pred_index : nat) : bool :=
  (pred_index <? length pred)%nat
  && Qlt_bool (Qabs (nth pred_index pred 0 - true_bkpt)) margin.

(** The loop state: [(matched_count, pred_index)]. *)
Definition sweep_state : Type := (nat * nat)%type.

(** One iteration of [for true_bkpt in gt]. *)
Definition sweep_step (margin : Q) (pred : list Q) (st : sweep_state)
  (true_bkpt : Q) : sweep_state :=
  let '(matched_count, pred_index) := st in
  let pred_index :=
    advance (length pred - pred_index) pred (true_bkpt - margin) pred_index in
  if within margin pred true_bkpt pred_index
  then (S matched_count, pred_index)
  else (matched_count, pred_index).

(** The whole [for] loop, from [matched_count = 0], [pred_index = 0]. *)
Definition sweep (margin : Q) (gt pred : list Q) : sweep_state :=
  fold_left (sweep_step margin pred) gt (O, O).

(** [matched_count] when the [for] loop is left. *)
Definition matched_count (margin : Q) (gt pred : list Q) : nat :=
  fst (sweep margin gt pred).

(** [precision = matched_count / len(pred)] and
    [recall = matched_count / len(gt)]. *)
Definition precision (margin : Q) (gt pred : list Q) : Q :=
  of_int (matched_count margin gt pred) / of_int (length pred).

Definition recall (margin : Q) (gt pred : list Q) : Q :=
  of_int (matched_count margin gt pred) / of_int (length gt).

(** [_evaluate(self, y_true, y_pred)], with [self.margin] as [margin]. *)
Definition _evaluate (margin : Q) (y_true y_pred : list Q) : Q :=
  let gt := sorted y_true in
  let pred := sorted y_pred in
  if ((length gt =? 0) && (length pred =? 0))%nat then 1
  else if (length gt =? 0)%nat then 0
  else if (length pred =? 0)%nat then 0
  else
    let precision := precision margin gt pred in
    let recall := recall margin gt pred in
    if Qeq_bool (precision + recall) 0 then 0
    else 2 * precision * recall / (precision + recall).

End F1ScoreBreakpoints.

Import F1ScoreBreakpoints.

(** * Reference definitions, written from the specification *)

Module Reference.

(** Step 3a on the part of the predictions from the cursor on: drop the
    values strictly less than [t - margin]. *)
Fixpoint drop_behind (bound : Q) (rest : list Q) : list Q :=
  match rest with
  | [] => []
  | p :: rest' => if Qlt_bool p bound then drop_behind bound rest' else rest
  end.

(** Step 3b: the cursor is within bounds and the value there is strictly
    closer to [t] than [margin]. *)
Definition matches (margin t : Q) (rest : list Q) : bool :=
  match rest with
  | [] => false
  | p :: _ => Qlt_bool (Qabs (p - t)) margin
  end.

(** Steps 3a to 3c for every ground-truth value in order; the cursor stays
    where step 3a left it. *)
Fixpoint reference_sweep (margin : Q) (gt rest : list Q) : nat :=
  match gt with
  | [] => O
  | t :: gt' =>
      let rest' := drop_behind (t - margin) rest in
      ((if matches margin t rest' then 1 else 0)
       + reference_sweep margin gt' rest')%nat
  end.

(** Steps 4 and 5: F1 from a matched count and the two lengths. *)
Definition f1_of_count (matched n_pred n_gt : nat) : Q :=
  let precision := of_int matched / of_int n_pred in
  let recall := of_int matched / of_int n_gt in
  if Qeq_bool (precision + recall) 0 then 0
  else 2 * precision * recall / (precision + recall).

End Reference.

Import Reference.

(** * Auxiliary definitions *)

(** The cursor the [while] loop reaches from [pred_index] for [true_bkpt]. *)
Definition cursor_after (margin : Q) (pred : list Q) (pred_index : nat)
  (true_bkpt : Q) : nat :=
  advance (length pred - pred_index) pred (true_bkpt - margin) pred_index.



(** * The documentation build (docs/source/conf.py)

    Strings are [string]; a raised exception is a [Raise] result.  What
    the code gets from outside the repository ([str.lower], the iteration
    order of a [set], [inspect]) is an argument of the function that uses
    it. *)

Module Conf.

Import Stdlib.Strings.String Stdlib.Strings.Ascii.
Local Open Scope string_scope.

Inductive exn : Type := IndexError | KeyError.

Inductive result (A : Type) : Type :=
| Ok (a : A)
| Raise (e : exn).

Arguments Ok {A} a.
Arguments Raise {A} e.

(** The double quote character. *)
Definition dq : string := String "034"%char EmptyString.

(** A tag value that is a [str] or a [list] of [str], as the code tells
    them apart with [isinstance]. *)
Inductive tag_value : Type :=
| TagStr (s : string)
| TagList (l : list string).

(** [sep.join(ls)] is [String.concat sep ls]; [s.split(sep)] for a
    one-character [sep]: *)
Fixpoint split (sep : ascii) (s : string) : list string :=
  match s with
  | EmptyString => [EmptyString]
  | String c s' =>
      if Ascii.eqb c sep then EmptyString :: split sep s'
      else match split sep s' with
           | h :: t => String c h :: t
           | [] => [String c EmptyString]
           end
  end.

(** [s.replace(a, b)] for one-character [a] and [b]. *)
Fixpoint replace (a b : ascii) (s : string) : string :=
  match s with
  | EmptyString => EmptyString
  | String c s' => String (if Ascii.eqb c a then b else c) (replace a b s')
  end.

(** [c in s]. *)
Fixpoint has_char (c : ascii) (s : string) : bool :=
  match s with
  | EmptyString => false
  | String c' s' => Ascii.eqb c' c || has_char c s'
  end.

(** ** [_process_author_info] *)

Definition team_link : string :=
  "<a href=" ++ dq ++ "about/team" ++ dq ++ ">" ++ "sktime developers</a>".

Definition _add_link (github_id_str : string) : string :=
  "<a href=" ++ dq ++ "https://www.github.com/" ++ github_id_str ++ dq
  ++ ">" ++ github_id_str ++ "</a>".

Definition _process_author_info (lower : string -> string)
  (author_info : tag_value) : result string :=
  if match author_info with
     | TagStr s => lower s =? "sktime developers"
     | TagList _ => false
     end
  then Ok team_link
  else
    let author_info :=
      match author_info with
      | TagList l => l
      | TagStr s => [s]
      end in
    let author_info := List.map _add_link author_info in
    if (1 <? List.length author_info)%nat
    then Ok (String.concat ", " (removelast author_info)
             ++ " & " ++ last author_info "")
    else match author_info with
         | x :: _ => Ok x
         | [] => Raise IndexError
         end.

(** ** The loop body of [_make_estimator_overview] *)

(** The keys of [tags_by_object_type]. *)
Definition tags_by_object_type_keys : list string :=
  ["forecaster"; "transformer"; "aligner"; "clusterer"; "regressor";
   "classifier"; "transformer-pairwise-panel"; "param_est"; "splitter";
   "metric"; "detector"].

(** [object_types], normalised to a list. *)
Definition object_types_of (tag : tag_value) : list string :=
  match tag with
  | TagList l => l
  | TagStr s => [s]
  end.

(** [first_obj_type_in_register]; [menu object_types] is
    [list(set(object_types) & set(tags_by_object_type.keys()))], in the
    order the set is iterated. *)
Definition first_obj_type_in_register
  (menu : list string -> list string) (tag : tag_value) : result string :=
  let object_types := object_types_of tag in
  let obj_types_in_menu := menu object_types in
  match obj_types_in_menu with
  | [] =>
      match object_types with
      | x :: _ => Ok x
      | [] => Raise IndexError
      end
  | x :: _ => Ok x
  end.

(** One possible iteration order of that set: the order of
    [object_types], each type once. *)
Definition menu_in_list_order (object_types : list string) : list string :=
  nodup string_dec
    (filter (fun x => existsb (String.eqb x) tags_by_object_type_keys)
       object_types).

(** [del path_parts[-2]]. *)
Definition del_second_last (path_parts : list string)
  : result (list string) :=
  if (List.length path_parts <? 2)%nat then Raise IndexError
  else Ok (firstn (List.length path_parts - 2) path_parts
           ++ skipn (List.length path_parts - 1) path_parts)%list.

(** [(modpath, clean_path, import_path)] from [str(obj_class)]. *)
Definition estimator_paths (cls_str : string)
  : result (string * string * string) :=
  let modpath := substring 8 (String.length cls_str - 10) cls_str in
  let path_parts := split "." modpath in
  match del_second_last path_parts with
  | Raise e => Raise e
  | Ok path_parts =>
      let clean_path := String.concat "." path_parts in
      let import_path := String.concat "." (removelast path_parts) in
      Ok (modpath, clean_path, import_path)
  end.

(** ** [linkcode_resolve] *)

(** [%d] of an [int]. *)
Definition fmt_d (n : Z) : string :=
  DecimalString.NilZero.string_of_int (Z.to_int n).

(** [find_source] gives [Some (fn, lineno, len(source))] or [None] when it
    raises; [info] is the dictionary, read by key. *)
Definition linkcode_resolve (CURRENT_VERSION : string)
  (find_source : option (string * Z * Z)) (domain : string)
  (info : string -> option string) : result (option string) :=
  if negb (domain =? "py") then Ok None
  else
    match info "module" with
    | None => Raise KeyError
    | Some module =>
        if module =? "" then Ok None
        else
          let filename :=
            match find_source with
            | Some (fn, lineno, n) =>
                "sktime/" ++ fn ++ "#L" ++ fmt_d lineno
                ++ "-L" ++ fmt_d (lineno + n - 1)
            | None => replace "." "/" module ++ ".py"
            end in
          Ok (Some ("https://github.com/sktime/sktime/blob/"
                    ++ CURRENT_VERSION ++ "/" ++ filename))
    end.

End Conf.

(** * Basic facts *)

Lemma Qlt_bool_iff (x y : Q) : Qlt_bool x y = true <-> x < y.
Proof.
  unfold Qlt_bool. rewrite negb_true_iff. split; intro H.
  - apply Qnot_le_lt. intro Hle. apply Qle_bool_iff in Hle. congruence.
  - destruct (Qle_bool y x) eqn:E; [|reflexivity].
    apply Qle_bool_iff in E. exfalso. exact (Qlt_not_le _ _ H E).
Qed.

Lemma Qlt_bool_false_iff (x y : Q) : Qlt_bool x y = false <-> y <= x.
Proof.
  unfold Qlt_bool. rewrite negb_false_iff. apply Qle_bool_iff.
Qed.

Lemma Qle_bool_false_le (x y : Q) : Qle_bool x y = false -> y <= x.
Proof.
  intro H. destruct (Qlt_le_dec y x) as [Hlt|Hle].
  - now apply Qlt_le_weak.
  - apply Qle_bool_iff in Hle. congruence.
Qed.

Lemma Qlt_bool_Qeq (x x' y y' : Q) :
  x == x' -> y == y' -> Qlt_bool x y = Qlt_bool x' y'.
Proof.
  intros Hx Hy. unfold Qlt_bool. now rewrite Hx, Hy.
Qed.

Lemma of_int_nonneg (n : nat) : 0 <= of_int n.
Proof.
  unfold of_int, Qle. simpl. lia.
Qed.

Lemma of_int_pos (n : nat) : (0 < n)%nat -> 0 < of_int n.
Proof.
  intro H. unfold of_int, Qlt. simpl. lia.
Qed.

Lemma of_int_le (m n : nat) : (m <= n)%nat -> of_int m <= of_int n.
Proof.
  intro H. unfold of_int, Qle. simpl. lia.
Qed.

Lemma of_int_plus (m n : nat) : of_int (m + n) == of_int m + of_int n.
Proof.
  unfold of_int. rewrite Nat2Z.inj_add, inject_Z_plus. reflexivity.
Qed.

Lemma length_insort (x : Q) (l : list Q) : length (insort x l) = S (length l).
Proof.
  induction l as [|h t IH]; simpl; [reflexivity|].
  destruct (Qle_bool x h); simpl; [reflexivity | now rewrite IH].
Qed.

Lemma length_sorted (l : list Q) : length (sorted l) = length l.
Proof.
  induction l as [|x t IH]; simpl; [reflexivity|].
  now rewrite length_insort, IH.
Qed.

(** * The cursor loop *)

Lemma advance_ge (fuel : nat) (pred : list Q) (bound : Q) :
  forall pred_index, (pred_index <= advance fuel pred bound pred_index)%nat.
Proof.
  induction fuel as [|fuel IH]; intro i; simpl; [lia|].
  destruct (behind pred bound i); [|lia].
  specialize (IH (S i)). lia.
Qed.

Lemma behind_lt (pred : list Q) (bound : Q) (i : nat) :
  behind pred bound i = true -> (i < length pred)%nat.
Proof.
  unfold behind. intro H. apply andb_true_iff in H as [H _].
  now apply Nat.ltb_lt.
Qed.

Lemma advance_le_len (fuel : nat) (pred : list Q) (bound : Q) :
  forall pred_index,
    (pred_index <= length pred)%nat ->
    (advance fuel pred bound pred_index <= length pred)%nat.
Proof.
  induction fuel as [|fuel IH]; intros i Hi; simpl; [exact Hi|].
  destruct (behind pred bound i) eqn:E; [|exact Hi].
  apply IH. apply behind_lt in E. lia.
Qed.

(** The fuel [len(pred) - pred_index] is enough: the guard of the [while]
    loop is false where [advance] stops. *)
Lemma advance_exit (fuel : nat) (pred : list Q) (bound : Q) :
  forall pred_index,
    (length pred - pred_index <= fuel)%nat ->
    behind pred bound (advance fuel pred bound pred_index) = false.
Proof.
  induction fuel as [|fuel IH]; intros i Hf; simpl.
  - unfold behind. replace (i <? length pred)%nat with false; [reflexivity|].
    symmetry. apply Nat.ltb_ge. lia.
  - destruct (behind pred bound i) eqn:E; [|exact E].
    apply IH. lia.
Qed.

(** * The matching sweep *)

Lemma within_lt (margin : Q) (pred : list Q) (t : Q) (i : nat) :
  within margin pred t i = true -> (i < length pred)%nat.
Proof.
  unfold within. intro H. apply andb_true_iff in H as [H _].
  now apply Nat.ltb_lt.
Qed.

Lemma sweep_step_eq (margin : Q) (pred : list Q) (m i : nat) (t : Q) :
  sweep_step margin pred (m, i) t =
  ((if within margin pred t (cursor_after margin pred i t) then S m else m),
   cursor_after margin pred i t).
Proof.
  unfold sweep_step, cursor_after.
  destruct (within margin pred t _); reflexivity.
Qed.

Lemma fold_sweep_le (margin : Q) (pred : list Q) :
  forall gt m i,
    (fst (fold_left (sweep_step margin pred) gt (m, i)) <= m + length gt)%nat.
Proof.
  induction gt as [|t gt IH]; intros m i; cbn [fold_left length fst]; [lia|].
  rewrite sweep_step_eq.
  etransitivity; [apply IH|].
  destruct (within margin pred t _); lia.
Qed.

Lemma fold_sweep_nil (margin : Q) :
  forall gt m i, fst (fold_left (sweep_step margin []) gt (m, i)) = m.
Proof.
  induction gt as [|t gt IH]; intros m i; cbn [fold_left fst]; [reflexivity|].
  rewrite sweep_step_eq, IH.
  destruct (within margin [] t _) eqn:E; [|reflexivity].
  apply within_lt in E. simpl in E. lia.
Qed.

Lemma matched_count_le_gt (margin : Q) (gt pred : list Q) :
  (matched_count margin gt pred <= length gt)%nat.
Proof.
  unfold matched_count, sweep. apply (fold_sweep_le margin pred gt 0 0)%nat.
Qed.

Lemma matched_count_no_pred (margin : Q) (gt : list Q) :
  matched_count margin gt [] = O.
Proof.
  unfold matched_count, sweep. apply fold_sweep_nil.
Qed.

(** * The sweep on the rest of the predictions *)

Lemma skipn_cons_nth (l : list Q) :
  forall i, (i < length l)%nat -> skipn i l = nth i l 0 :: skipn (S i) l.
Proof.
  induction l as [|h t IH]; intros i Hi; simpl in Hi; [lia|].
  destruct i as [|i]; [reflexivity|].
  cbn [skipn nth]. apply IH. lia.
Qed.

Lemma behind_skipn (pred : list Q) (bound : Q) (i : nat) :
  behind pred bound i =
  match skipn i pred with
  | [] => false
  | p :: _ => Qlt_bool p bound
  end.
Proof.
  unfold behind. destruct (Nat.ltb_spec i (length pred)) as [Hi|Hi].
  - now rewrite (skipn_cons_nth pred i Hi).
  - now rewrite skipn_all2.
Qed.

Lemma within_skipn (margin : Q) (pred : list Q) (t : Q) (i : nat) :
  within margin pred t i = matches margin t (skipn i pred).
Proof.
  unfold within, matches. destruct (Nat.ltb_spec i (length pred)) as [Hi|Hi].
  - now rewrite (skipn_cons_nth pred i Hi).
  - now rewrite skipn_all2.
Qed.

Lemma advance_skipn (fuel : nat) (pred : list Q) (bound : Q) :
  forall i,
    (length pred - i <= fuel)%nat ->
    skipn (advance fuel pred bound i) pred = drop_behind bound (skipn i pred).
Proof.
  induction fuel as [|fuel IH]; intros i Hf; cbn [advance].
  - rewrite skipn_all2 by lia. reflexivity.
  - rewrite behind_skipn.
    destruct (Nat.lt_ge_cases i (length pred)) as [Hi|Hi].
    + rewrite (skipn_cons_nth pred i Hi). cbn [drop_behind].
      destruct (Qlt_bool (nth i pred 0) bound).
      * apply IH. lia.
      * apply skipn_cons_nth, Hi.
    + assert (E : skipn i pred = []) by (apply skipn_all2; lia).
      rewrite E. cbn [drop_behind]. exact E.
Qed.

Lemma fold_sweep_reference (margin : Q) (pred : list Q) :
  forall gt m i,
    fst (fold_left (sweep_step margin pred) gt (m, i)) =
    (m + reference_sweep margin gt (skipn i pred))%nat.
Proof.
  induction gt as [|t gt IH]; intros m i;
    cbn [fold_left reference_sweep fst]; [lia|].
  rewrite sweep_step_eq, IH, within_skipn.
  unfold cursor_after. rewrite advance_skipn by lia.
  destruct (matches margin t _); lia.
Qed.

(** * Sorting and the order of the inputs *)

Lemma Forall2_Qeq_refl (l : list Q) : Forall2 Qeq l l.
Proof.
  induction l; constructor; [reflexivity | assumption].
Qed.

Lemma Forall2_Qeq_trans (l1 l2 l3 : list Q) :
  Forall2 Qeq l1 l2 -> Forall2 Qeq l2 l3 -> Forall2 Qeq l1 l3.
Proof.
  intro H. revert l3.
  induction H as [|x y l1 l2 Hxy H12 IH]; intros l3 H23.
  - exact H23.
  - inversion H23 as [|y' z l2' l3' Hyz H23']; subst.
    constructor; [now rewrite Hxy | now apply IH].
Qed.

Lemma Forall2_Qeq_nth (l l' : list Q) :
  Forall2 Qeq l l' -> forall i, nth i l 0 == nth i l' 0.
Proof.
  induction 1 as [|x y l l' Hxy H IH]; intros [|i]; simpl;
    try reflexivity; auto.
Qed.

Lemma insort_Qeq (x x' : Q) (l l' : list Q) :
  x == x' -> Forall2 Qeq l l' -> Forall2 Qeq (insort x l) (insort x' l').
Proof.
  intros Hx H. induction H as [|h h' t t' Hh Ht IH]; cbn [insort].
  - constructor; [exact Hx | constructor].
  - rewrite (Qleb_comp x x' Hx h h' Hh).
    destruct (Qle_bool x' h'); repeat constructor; assumption.
Qed.

Lemma insort_swap (a b : Q) (l : list Q) :
  Forall2 Qeq (insort a (insort b l)) (insort b (insort a l)).
Proof.
  induction l as [|h t IH]; cbn [insort].
  - destruct (Qle_bool a b) eqn:Eab, (Qle_bool b a) eqn:Eba.
    + apply Qle_bool_iff in Eab, Eba.
      assert (a == b) by now apply Qle_antisym.
      repeat constructor; [assumption | now symmetry].
    + apply Forall2_Qeq_refl.
    + apply Forall2_Qeq_refl.
    + exfalso. apply Qle_bool_false_le, Qle_bool_iff in Eab. congruence.
  - destruct (Qle_bool b h) eqn:Ebh, (Qle_bool a h) eqn:Eah; cbn [insort];
      rewrite ?Ebh, ?Eah.
    + destruct (Qle_bool a b) eqn:Eab, (Qle_bool b a) eqn:Eba.
      * apply Qle_bool_iff in Eab, Eba.
        assert (a == b) by now apply Qle_antisym.
        constructor; [assumption|].
        constructor; [now symmetry | apply Forall2_Qeq_refl].
      * apply Forall2_Qeq_refl.
      * apply Forall2_Qeq_refl.
      * exfalso. apply Qle_bool_false_le, Qle_bool_iff in Eab. congruence.
    + destruct (Qle_bool a b) eqn:Eab.
      * exfalso. apply Qle_bool_iff in Eab, Ebh.
        assert (Hah : a <= h) by (eapply Qle_trans; eassumption).
        apply Qle_bool_iff in Hah. congruence.
      * apply Forall2_Qeq_refl.
    + destruct (Qle_bool b a) eqn:Eba.
      * exfalso. apply Qle_bool_iff in Eba, Eah.
        assert (Hbh : b <= h) by (eapply Qle_trans; eassumption).
        apply Qle_bool_iff in Hbh. congruence.
      * apply Forall2_Qeq_refl.
    + constructor; [reflexivity | exact IH].
Qed.

Lemma sorted_Permutation (l l' : list Q) :
  Permutation l l' -> Forall2 Qeq (sorted l) (sorted l').
Proof.
  induction 1 as [|x l l' _ IH|x y l|l1 l2 l3 _ IH12 _ IH23]; cbn [sorted].
  - constructor.
  - apply insort_Qeq; [reflexivity | exact IH].
  - apply insort_swap.
  - eapply Forall2_Qeq_trans; eassumption.
Qed.

Lemma behind_Qeq (pred pred' : list Q) (bound bound' : Q) (i : nat) :
  Forall2 Qeq pred pred' -> bound == bound' ->
  behind pred bound i = behind pred' bound' i.
Proof.
  intros Hp Hb. unfold behind.
  rewrite (Forall2_length Hp).
  now rewrite (Qlt_bool_Qeq _ _ _ _ (Forall2_Qeq_nth _ _ Hp i) Hb).
Qed.

Lemma advance_Qeq (fuel : nat) (pred pred' : list Q) (bound bound' : Q) :
  Forall2 Qeq pred pred' -> bound == bound' ->
  forall i, advance fuel pred bound i = advance fuel pred' bound' i.
Proof.
  intros Hp Hb. induction fuel as [|fuel IH]; intro i; cbn [advance];
    [reflexivity|].
  rewrite (behind_Qeq pred pred' bound bound' i Hp Hb).
  destruct (behind pred' bound' i); [apply IH | reflexivity].
Qed.

Lemma within_Qeq (margin : Q) (pred pred' : list Q) (t t' : Q) (i : nat) :
  Forall2 Qeq pred pred' -> t == t' ->
  within margin pred t i = within margin pred' t' i.
Proof.
  intros Hp Ht. unfold within. rewrite (Forall2_length Hp).
  f_equal. apply Qlt_bool_Qeq; [|reflexivity].
  now rewrite (Forall2_Qeq_nth _ _ Hp i), Ht.
Qed.

Lemma sweep_step_Qeq (margin : Q) (pred pred' : list Q) (st : sweep_state)
  (t t' : Q) :
  Forall2 Qeq pred pred' -> t == t' ->
  sweep_step margin pred st t = sweep_step margin pred' st t'.
Proof.
  intros Hp Ht. destruct st as [m i]. rewrite !sweep_step_eq.
  assert (Hc : cursor_after margin pred i t = cursor_after margin pred' i t').
  { unfold cursor_after. rewrite (Forall2_length Hp).
    apply advance_Qeq; [exact Hp | now rewrite Ht]. }
  rewrite Hc, (within_Qeq margin pred pred' t t' _ Hp Ht). reflexivity.
Qed.

Lemma sweep_Qeq (margin : Q) (gt gt' pred pred' : list Q) :
  Forall2 Qeq gt gt' -> Forall2 Qeq pred pred' ->
  sweep margin gt pred = sweep margin gt' pred'.
Proof.
  intros Hg Hp. unfold sweep. generalize (O, O).
  induction Hg as [|t t' gt gt' Ht Hg IH]; intro st; cbn [fold_left];
    [reflexivity|].
  rewrite (sweep_step_Qeq margin pred pred' st t t' Hp Ht). apply IH.
Qed.

(** * From the matched count to the score *)

Lemma evaluate_nonempty (margin : Q) (y_true y_pred : list Q) :
  y_true <> [] -> y_pred <> [] ->
  _evaluate margin y_true y_pred =
  f1_of_count (matched_count margin (sorted y_true) (sorted y_pred))
    (length y_pred) (length y_true).
Proof.
  intros Ht Hp. unfold _evaluate, precision, recall, f1_of_count.
  rewrite !length_sorted.
  destruct y_true as [|t gt]; [congruence|].
  destruct y_pred as [|p pred]; [congruence|].
  reflexivity.
Qed.

Lemma f1_of_count_zero (n_pred n_gt : nat) : f1_of_count 0 n_pred n_gt = 0.
Proof.
  unfold f1_of_count. change (of_int 0) with 0.
  replace (Qeq_bool (0 / of_int n_pred + 0 / of_int n_gt) 0) with true;
    [reflexivity|].
  symmetry. apply Qeq_bool_iff. unfold Qdiv. ring.
Qed.

Lemma Qdiv_pos (a b : Q) : 0 < a -> 0 < b -> 0 < a / b.
Proof.
  intros Ha Hb. apply Qlt_shift_div_l; [exact Hb|]. lra.
Qed.

(** Steps 4 and 5 simplify to [2 * matched / (|gt| + |pred|)]. *)
Lemma f1_of_count_closed (matched n_pred n_gt : nat) :
  (0 < n_pred)%nat -> (0 < n_gt)%nat ->
  f1_of_count matched n_pred n_gt ==
  2 * of_int matched / (of_int n_gt + of_int n_pred).
Proof.
  intros Hp Hg.
  pose proof (of_int_pos n_pred Hp) as Hb.
  pose proof (of_int_pos n_gt Hg) as Hc.
  destruct matched as [|m].
  - rewrite f1_of_count_zero. change (of_int 0) with 0.
    unfold Qdiv. ring.
  - pose proof (of_int_pos (S m) (Nat.lt_0_succ m)) as Ha.
    unfold f1_of_count.
    set (a := of_int (S m)) in *. set (b := of_int n_pred) in *.
    set (c := of_int n_gt) in *.
    pose proof (Qdiv_pos a b Ha Hb) as Hab.
    pose proof (Qdiv_pos a c Ha Hc) as Hac.
    destruct (Qeq_bool (a / b + a / c) 0) eqn:E.
    + apply Qeq_bool_iff in E. lra.
    + assert (Hs : 0 < a * c + a * b) by nra.
      field. repeat split; lra.
Qed.

Lemma no_match_count (margin : Q) (pred : list Q) :
  (forall t i, within margin pred t i = false) ->
  forall gt m i, fst (fold_left (sweep_step margin pred) gt (m, i)) = m.
Proof.
  intros Hw. induction gt as [|t gt IH]; intros m i; cbn [fold_left fst];
    [reflexivity|].
  now rewrite sweep_step_eq, IH, Hw.
Qed.

Lemma within_zero_margin (margin : Q) (pred : list Q) (t : Q) (i : nat) :
  margin <= 0 -> within margin pred t i = false.
Proof.
  intro Hm. unfold within. apply andb_false_iff. right.
  apply Qlt_bool_false_iff.
  pose proof (Qabs_nonneg (nth i pred 0 - t)). lra.
Qed.

Lemma recall_bounds (margin : Q) (gt pred : list Q) :
  0 <= recall margin gt pred <= 1.
Proof.
  unfold recall.
  pose proof (matched_count_le_gt margin gt pred) as Hle.
  pose proof (of_int_nonneg (matched_count margin gt pred)) as Hm.
  destruct (length gt) as [|n] eqn:En.
  - assert (E0 : matched_count margin gt pred = O) by lia.
    rewrite E0. change (of_int 0) with 0. unfold Qdiv.
    setoid_replace (0 * / 0) with 0 by ring. lra.
  - pose proof (of_int_pos (S n) (Nat.lt_0_succ n)) as Hn.
    apply of_int_le in Hle. split.
    + apply Qle_shift_div_l; [exact Hn|]. lra.
    + apply Qle_shift_div_r; [exact Hn|]. lra.
Qed.

Lemma evaluate_nil_nil (margin : Q) : _evaluate margin [] [] = 1.
Proof.
  reflexivity.
Qed.

Lemma evaluate_nil_true (margin p : Q) (pred : list Q) :
  _evaluate margin [] (p :: pred) = 0.
Proof.
  unfold _evaluate. cbn [sorted]. rewrite length_insort. reflexivity.
Qed.

Lemma evaluate_nil_pred (margin t : Q) (gt : list Q) :
  _evaluate margin (t :: gt) [] = 0.
Proof.
  unfold _evaluate. cbn [sorted]. rewrite length_insort. reflexivity.
Qed.


(** The score is never negative, and it is at most [1] as long as the
    matched count does not exceed the number of predictions. *)
Lemma evaluate_nonneg (margin : Q) (y_true y_pred : list Q) :
  0 <= _evaluate margin y_true y_pred.
Proof.
  destruct y_true as [|t gt], y_pred as [|p pred].
  - rewrite evaluate_nil_nil. discriminate.
  - rewrite evaluate_nil_true. apply Qle_refl.
  - rewrite evaluate_nil_pred. apply Qle_refl.
  - rewrite evaluate_nonempty by discriminate.
    rewrite f1_of_count_closed by (cbn [length]; lia).
    set (m := matched_count _ _ _).
    pose proof (of_int_nonneg m).
    pose proof (of_int_pos (length (p :: pred))) as Hp.
    pose proof (of_int_pos (length (t :: gt))) as Hg.
    cbn [length] in *. specialize (Hp (Nat.lt_0_succ _)).
    specialize (Hg (Nat.lt_0_succ _)).
    apply Qle_shift_div_l; lra.
Qed.

Lemma evaluate_le_one (margin : Q) (y_true y_pred : list Q) :
  (matched_count margin (sorted y_true) (sorted y_pred)
   <= length y_pred)%nat ->
  _evaluate margin y_true y_pred <= 1.
Proof.
  destruct y_true as [|t gt], y_pred as [|p pred]; intro Hm.
  - rewrite evaluate_nil_nil. apply Qle_refl.
  - rewrite evaluate_nil_true. discriminate.
  - rewrite evaluate_nil_pred. discriminate.
  - rewrite evaluate_nonempty by discriminate.
    rewrite f1_of_count_closed by (cbn [length]; lia).
    pose proof (matched_count_le_gt margin (sorted (t :: gt))
                  (sorted (p :: pred))) as Hg.
    rewrite length_sorted in Hg.
    set (m := matched_count _ _ _) in *.
    apply of_int_le in Hm, Hg.
    pose proof (of_int_pos (length (p :: pred))) as Hp.
    cbn [length] in *. specialize (Hp (Nat.lt_0_succ _)).
    pose proof (of_int_nonneg (S (length gt))).
    apply Qle_shift_div_r; lra.
Qed.

(** * The sweep on sorted inputs *)













(** * Boundary and repeated matches *)

(** A prediction at distance exactly [margin] is not a match. *)
Lemma boundary_not_matched (margin t p : Q) :
  Qabs (p - t) == margin -> matched_count margin [t] [p] = O.
Proof.
  intro Hd. unfold matched_count, sweep. rewrite fold_sweep_reference.
  cbn [skipn reference_sweep drop_behind Nat.add].
  destruct (Qlt_bool p (t - margin)); cbn [matches]; [reflexivity|].
  assert (E : Qlt_bool (Qabs (p - t)) margin = false)
    by (apply Qlt_bool_false_iff; lra).
  now rewrite E.
Qed.

(** One prediction is counted for each ground-truth value it is close to. *)
Lemma prediction_matched_twice (margin t : Q) :
  0 < margin -> matched_count margin [t; t] [t] = 2%nat.
Proof.
  intro Hm. unfold matched_count, sweep. rewrite fold_sweep_reference.
  cbn [skipn reference_sweep drop_behind Nat.add].
  assert (E1 : Qlt_bool t (t - margin) = false)
    by (apply Qlt_bool_false_iff; lra).
  assert (E2 : Qlt_bool (Qabs (t - t)) margin = true).
  { apply Qlt_bool_iff, Qabs_Qlt_condition. split; lra. }
  rewrite E1. cbn [matches drop_behind]. rewrite E1. cbn [matches].
  now rewrite E2.
Qed.

(** * The scenarios of the specification *)

Example scenario_both_empty : _evaluate 1 [] [] == 1.
Proof. reflexivity. Qed.

Example scenario_no_prediction : _evaluate 1 [5] [] == 0.
Proof. reflexivity. Qed.

Example scenario_exact : _evaluate 1 [5] [5] == 1.
Proof. reflexivity. Qed.

Example scenario_far : _evaluate 1 [5] [10] == 0.
Proof. reflexivity. Qed.

Example scenario_two_close : _evaluate 1 [5; 10] [55 # 10; 105 # 10] == 1.
Proof. reflexivity. Qed.

Example scenario_extra_prediction :
  _evaluate 1 [5] [49 # 10; 59 # 10] == 2 # 3.
Proof. reflexivity. Qed.

(** * The claims *)

(** C1.  The score is meant to lie in [[0, 1]], but for the ground truth
    [5, 5], the single prediction [5] and margin [1] the code returns
    [4/3]: both ground-truth points match the one prediction, so
    [precision = 2 / 1] and the score exceeds [1]. *)
Theorem evaluate_exceeds_one :
  0 <= 1
  /\ matched_count 1 (sorted [5; 5]) (sorted [5]) = 2%nat
  /\ precision 1 (sorted [5; 5]) (sorted [5]) == 2
  /\ _evaluate 1 [5; 5] [5] == 4 # 3
  /\ ~ (0 <= _evaluate 1 [5; 5] [5] <= 1).
Proof.
  repeat split; try (vm_compute; (reflexivity || discriminate)).
  intros [_ H]. revert H. vm_compute. intro H. apply H. reflexivity.
Qed.

(** C2, as stated: the matched count is not bounded by the number of
    predictions.  Ground truth [5, 5], prediction [5], margin [1]: the
    count is [2], above [min 2 1]. *)
Lemma matched_count_above_min :
  0 <= 1
  /\ ~ (0 <= matched_count 1%Q (sorted [5; 5]%Q) (sorted [5]%Q)
        <= Nat.min (length [5; 5]) (length [5]))%nat.
Proof.
  split; [discriminate|]. vm_compute. intros [_ H]. lia.
Qed.

(** C2, amended: for every ground truth, predictions and margin [>= 0],
    the matched count lies between [0] and the number of ground-truth
    points, and it is [0] when there is no prediction. *)
Theorem matched_count_range (margin : Q) (y_true y_pred : list Q) :
  0 <= margin ->
  (0 <= matched_count margin (sorted y_true) (sorted y_pred)
   <= length y_true)%nat
  /\ matched_count margin (sorted y_true) (sorted []) = O.
Proof.
  intros _. split; [split; [lia|]|].
  - rewrite <- (length_sorted y_true). apply matched_count_le_gt.
  - apply matched_count_no_pred.
Qed.

Lemma matched_count_range_witness :
  0 <= 1
  /\ (0 <= matched_count 1%Q (sorted [5; 5]%Q) (sorted [5]%Q)
      <= length [5; 5])%nat
  /\ matched_count 1 (sorted [5; 5]) (sorted []) = O.
Proof.
  split; [discriminate|]. apply (matched_count_range 1 [5; 5] [5]).
  discriminate.
Defined.

(** C3.  The score is meant never to drop when the margin grows, but for
    the ground truth [5] and the predictions [4, 5] it is [2/3] at margin
    [1/2] and [0] at margin [1]: at margin [1] the cursor stops on [4],
    which is exactly [5 - 1], is not a match, and hides the prediction
    [5]. *)
Theorem evaluate_drops_with_margin :
  (1 # 2) <= 1
  /\ _evaluate (1 # 2) [5] [4; 5] == 2 # 3
  /\ _evaluate 1 [5] [4; 5] == 0
  /\ ~ (_evaluate (1 # 2) [5] [4; 5] <= _evaluate 1 [5] [4; 5]).
Proof.
  repeat split; try (vm_compute; (reflexivity || discriminate)).
  vm_compute. intro H. apply H. reflexivity.
Qed.

(** C4.  For non-empty inputs the matched count of [_evaluate] is the one
    of the reference sweep on the sorted sequences: per ground-truth value
    the cursor skips the predictions strictly below [t - margin], a match
    needs the cursor in bounds and [|pred[cursor] - t| < margin], and the
    cursor stays in place after a match. *)
Theorem matched_count_is_reference_sweep (margin : Q)
  (y_true y_pred : list Q) :
  y_true <> [] -> y_pred <> [] ->
  matched_count margin (sorted y_true) (sorted y_pred) =
  reference_sweep margin (sorted y_true) (sorted y_pred).
Proof.
  intros _ _. unfold matched_count, sweep.
  rewrite fold_sweep_reference. reflexivity.
Qed.

Lemma matched_count_is_reference_sweep_witness :
  [5; 10] <> [] /\ [55 # 10; 105 # 10] <> []
  /\ matched_count 1 (sorted [5; 10]) (sorted [55 # 10; 105 # 10]) =
     reference_sweep 1 (sorted [5; 10]) (sorted [55 # 10; 105 # 10]).
Proof.
  split; [discriminate|]. split; [discriminate|].
  apply (matched_count_is_reference_sweep 1 [5; 10] [55 # 10; 105 # 10]);
    discriminate.
Defined.

(** C5.  For every margin [>= 0], [_evaluate] returns [1] on two empty
    sequences and [0] when exactly one of them is empty. *)
Theorem evaluate_empty (margin t p : Q) (gt pred : list Q) :
  0 <= margin ->
  _evaluate margin [] [] = 1
  /\ _evaluate margin [] (p :: pred) = 0
  /\ _evaluate margin (t :: gt) [] = 0.
Proof.
  intros _. split; [apply evaluate_nil_nil|].
  split; [apply evaluate_nil_true | apply evaluate_nil_pred].
Qed.

Lemma evaluate_empty_witness :
  0 <= 1
  /\ _evaluate 1 [] [] = 1
  /\ _evaluate 1 [] [5; 7] = 0
  /\ _evaluate 1 [5] [] = 0.
Proof.
  split; [discriminate|]. apply (evaluate_empty 1 5 5 [] [7]). discriminate.
Defined.

(** C6.  For non-empty inputs the returned value is F1 of the matched
    count: [precision = matched_count / |predicted|],
    [recall = matched_count / |ground truth|], [0] when
    [precision + recall == 0] and
    [2 * precision * recall / (precision + recall)] otherwise. *)
Theorem evaluate_is_f1_of_count (margin : Q) (y_true y_pred : list Q) :
  y_true <> [] -> y_pred <> [] ->
  _evaluate margin y_true y_pred =
  f1_of_count (matched_count margin (sorted y_true) (sorted y_pred))
    (length y_pred) (length y_true).
Proof.
  apply evaluate_nonempty.
Qed.

Lemma evaluate_is_f1_of_count_witness :
  [5] <> [] /\ [49 # 10; 59 # 10] <> []
  /\ _evaluate 1 [5] [49 # 10; 59 # 10] =
     f1_of_count
       (matched_count 1 (sorted [5]) (sorted [49 # 10; 59 # 10]))
       (length [49 # 10; 59 # 10]) (length [5]).
Proof.
  split; [discriminate|]. split; [discriminate|].
  apply (evaluate_is_f1_of_count 1 [5] [49 # 10; 59 # 10]); discriminate.
Defined.

(** C7.  Reordering either input sequence does not change the score. *)
Theorem evaluate_permutation (margin : Q)
  (y_true y_true' y_pred y_pred' : list Q) :
  Permutation y_true y_true' -> Permutation y_pred y_pred' ->
  _evaluate margin y_true y_pred = _evaluate margin y_true' y_pred'.
Proof.
  intros Ht Hp.
  pose proof (sorted_Permutation _ _ Ht) as Hst.
  pose proof (sorted_Permutation _ _ Hp) as Hsp.
  unfold _evaluate, precision, recall, matched_count.
  rewrite (sweep_Qeq margin _ _ _ _ Hst Hsp).
  rewrite (Forall2_length Hst), (Forall2_length Hsp). reflexivity.
Qed.

Lemma evaluate_permutation_witness :
  Permutation [10; 5] [5; 10]
  /\ Permutation [105 # 10; 55 # 10] [55 # 10; 105 # 10]
  /\ _evaluate 1 [10; 5] [105 # 10; 55 # 10] =
     _evaluate 1 [5; 10] [55 # 10; 105 # 10].
Proof.
  split; [apply perm_swap|]. split; [apply perm_swap|].
  apply (evaluate_permutation 1 [10; 5] [5; 10]); apply perm_swap.
Defined.

(** C8.  [_evaluate] is not symmetric: some ground truth, predictions and
    margin give a score that changes when the two sequences are swapped. *)
Theorem evaluate_not_symmetric :
  exists (margin : Q) (gt pred : list Q),
    0 <= margin /\ ~ _evaluate margin gt pred == _evaluate margin pred gt.
Proof.
  exists 1, [1; 1], [1; 9]. split; [discriminate|].
  vm_compute. discriminate.
Qed.

(** C9.  With margin [0] nothing is matched, and on non-empty sequences,
    identical ones included, [_evaluate] returns [0]. *)
Theorem evaluate_zero_margin (margin : Q) (y_true y_pred : list Q) :
  margin == 0 -> y_true <> [] -> y_pred <> [] ->
  matched_count margin (sorted y_true) (sorted y_pred) = O
  /\ _evaluate margin y_true y_pred = 0
  /\ _evaluate margin y_true y_true = 0.
Proof.
  intros Hm Ht Hp.
  assert (Hc : forall gt pred, matched_count margin gt pred = O).
  { intros gt pred. unfold matched_count, sweep. apply no_match_count.
    intros t i. apply within_zero_margin. lra. }
  split; [apply Hc|].
  rewrite !evaluate_nonempty, !Hc by assumption.
  split; apply f1_of_count_zero.
Qed.

Lemma evaluate_zero_margin_witness :
  0 == 0 /\ [5; 10] <> [] /\ [5; 10] <> []
  /\ matched_count 0 (sorted [5; 10]) (sorted [5; 10]) = O
  /\ _evaluate 0 [5; 10] [5; 10] = 0
  /\ _evaluate 0 [5; 10] [5; 10] = 0.
Proof.
  split; [reflexivity|]. split; [discriminate|]. split; [discriminate|].
  apply (evaluate_zero_margin 0 [5; 10] [5; 10]);
    [reflexivity | discriminate | discriminate].
Defined.

(** C10.  For every ground truth, predictions and margin [>= 0] the
    matched count is at most the number of ground-truth points, so the
    recall [matched_count / |ground truth|] lies in [[0, 1]]; the
    precision [matched_count / |predicted|] can be above [1]. *)
Theorem recall_in_unit_interval (margin : Q) (y_true y_pred : list Q) :
  0 <= margin ->
  (matched_count margin (sorted y_true) (sorted y_pred)
   <= length y_true)%nat
  /\ 0 <= recall margin (sorted y_true) (sorted y_pred) <= 1
  /\ exists (m : Q) (gt pred : list Q),
       0 <= m /\ 1 < precision m (sorted gt) (sorted pred).
Proof.
  intros _. split; [|split].
  - rewrite <- (length_sorted y_true). apply matched_count_le_gt.
  - apply recall_bounds.
  - exists 1, [5; 5], [5]. split; [discriminate | reflexivity].
Qed.

Lemma recall_in_unit_interval_witness :
  0 <= 1
  /\ (matched_count 1%Q (sorted [5; 5]%Q) (sorted [5]%Q)
      <= length [5; 5])%nat
  /\ 0 <= recall 1 (sorted [5; 5]) (sorted [5]) <= 1
  /\ exists (m : Q) (gt pred : list Q),
       0 <= m /\ 1 < precision m (sorted gt) (sorted pred).
Proof.
  split; [discriminate|]. apply (recall_in_unit_interval 1 [5; 5] [5]).
  discriminate.
Defined.

(** * Further properties of the score *)










Lemma evaluate_cons_closed (margin t p : Q) (gt pred : list Q) :
  _evaluate margin (t :: gt) (p :: pred) ==
  2 * of_int (matched_count margin (sorted (t :: gt)) (sorted (p :: pred)))
  / (of_int (S (length gt)) + of_int (S (length pred))).
Proof.
  rewrite evaluate_nonempty by discriminate.
  apply f1_of_count_closed; cbn [length]; lia.
Qed.


Lemma fold_sweep_cursor (margin : Q) (pred : list Q) :
  forall gt m i,
    (i <= length pred)%nat ->
    (i <= snd (fold_left (sweep_step margin pred) gt (m, i)) <= length pred)%nat.
Proof.
  induction gt as [|t gt IH]; intros m i Hi; cbn [fold_left snd]; [lia|].
  rewrite sweep_step_eq.
  pose proof (advance_ge (length pred - i) pred (t - margin) i) as Hge.
  pose proof (advance_le_len (length pred - i) pred (t - margin) i Hi) as Hle.
  fold (cursor_after margin pred i t) in Hge, Hle.
  specialize (IH (if within margin pred t (cursor_after margin pred i t)
                  then S m else m) _ Hle).
  lia.
Qed.










(** X3.  The score is never negative and always below [2]. *)
Theorem evaluate_range (margin : Q) (y_true y_pred : list Q) :
  0 <= _evaluate margin y_true y_pred /\ _evaluate margin y_true y_pred < 2.
Proof.
  split; [apply evaluate_nonneg|].
  destruct y_true as [|t gt], y_pred as [|p pred].
  - rewrite evaluate_nil_nil. reflexivity.
  - rewrite evaluate_nil_true. reflexivity.
  - rewrite evaluate_nil_pred. reflexivity.
  - rewrite evaluate_cons_closed.
    pose proof (matched_count_le_gt margin (sorted (t :: gt))
                  (sorted (p :: pred))) as Hg.
    rewrite length_sorted in Hg. cbn [length] in Hg.
    apply of_int_le in Hg.
    pose proof (of_int_pos (S (length pred)) (Nat.lt_0_succ _)).
    pose proof (of_int_pos (S (length gt)) (Nat.lt_0_succ _)).
    apply Qlt_shift_div_r; lra.
Qed.

(** X4.  The score is at most [1] whenever the matched count does not
    exceed the number of predictions. *)
Theorem evaluate_at_most_one (margin : Q) (y_true y_pred : list Q) :
  (matched_count margin (sorted y_true) (sorted y_pred)
   <= length y_pred)%nat ->
  _evaluate margin y_true y_pred <= 1.
Proof.
  apply evaluate_le_one.
Qed.

Lemma evaluate_at_most_one_witness :
  (matched_count 1%Q (sorted [5; 10]%Q) (sorted [55 # 10; 105 # 10]%Q)
   <= length [55 # 10; 105 # 10])%nat
  /\ _evaluate 1 [5; 10] [55 # 10; 105 # 10] <= 1.
Proof.
  assert (H : (matched_count 1%Q (sorted [5; 10]%Q)
                 (sorted [55 # 10; 105 # 10]%Q)
               <= length [55 # 10; 105 # 10])%nat)
    by (vm_compute; lia).
  split; [exact H|].
  exact (evaluate_at_most_one 1 [5; 10] [55 # 10; 105 # 10] H).
Defined.







(** X8.  Over the whole sweep the cursor only moves forward and ends at
    most at [len(pred)]: the body of the [while] loop runs at most
    [len(pred)] times in total. *)
Theorem sweep_cursor_bounded (margin : Q) (gt pred : list Q) :
  (snd (sweep margin gt pred) <= length pred)%nat
  /\ forall t gt',
       (snd (sweep margin gt pred)
        <= snd (sweep margin (gt ++ t :: gt') pred))%nat.
Proof.
  split.
  - apply (fold_sweep_cursor margin pred gt 0 0)%nat. lia.
  - intros t gt'. unfold sweep. rewrite fold_left_app.
    destruct (fold_left (sweep_step margin pred) gt (O, O)) as [m i] eqn:E.
    pose proof (fold_sweep_cursor margin pred gt 0 0 (Nat.le_0_l _))%nat as Hi.
    rewrite E in Hi. cbn [snd] in *.
    apply (fold_sweep_cursor margin pred (t :: gt') m i). lia.
Qed.

(** * Strings, [split] and [join] *)

Import Conf.
Import Stdlib.Strings.String Stdlib.Strings.Ascii.
Local Open Scope string_scope.

Lemma str_app_assoc (a b c : string) : (a ++ b) ++ c = a ++ (b ++ c).
Proof.
  induction a as [|x a IH]; cbn [append]; [reflexivity | now rewrite IH].
Qed.

Lemma str_length_app (a b : string) :
  String.length (a ++ b) = (String.length a + String.length b)%nat.
Proof.
  induction a as [|x a IH]; cbn [append String.length Nat.add];
    [reflexivity | now rewrite IH].
Qed.

Lemma substring_0_app (a b : string) :
  substring 0 (String.length a) (a ++ b) = a.
Proof.
  induction a as [|x a IH]; cbn [append String.length substring].
  - destruct b; reflexivity.
  - now rewrite IH.
Qed.

Lemma split_not_nil (sep : ascii) (s : string) : split sep s <> [].
Proof.
  destruct s as [|c s]; cbn [split]; [discriminate|].
  destruct (Ascii.eqb c sep); [discriminate|].
  destruct (split sep s); discriminate.
Qed.

(** Joining the parts of a split on the separator gives the string back. *)
Lemma join_split (sep : ascii) (s : string) :
  String.concat (String sep EmptyString) (split sep s) = s.
Proof.
  induction s as [|c s IH]; cbn [split]; [reflexivity|].
  pose proof (split_not_nil sep s) as Hne.
  destruct (Ascii.eqb_spec c sep) as [->|Hc].
  - destruct (split sep s) as [|h t]; [congruence|].
    cbn [String.concat append] in *. now rewrite IH.
  - destruct (split sep s) as [|h t]; [congruence|].
    destruct t as [|h2 t]; cbn [String.concat append] in *; now rewrite IH.
Qed.

Lemma split_app (sep : ascii) (a b : string) :
  split sep (a ++ String sep b) = (split sep a ++ split sep b)%list.
Proof.
  induction a as [|c a IH]; cbn [append split].
  - rewrite Ascii.eqb_refl. reflexivity.
  - rewrite IH. destruct (Ascii.eqb c sep); [reflexivity|].
    pose proof (split_not_nil sep a) as Hne.
    destruct (split sep a) as [|h t]; [congruence | reflexivity].
Qed.

Lemma split_no_sep (sep : ascii) (s : string) :
  has_char sep s = false -> split sep s = [s].
Proof.
  induction s as [|c s IH]; cbn [has_char split]; [reflexivity|].
  intro H. apply orb_false_iff in H as [Hc Hs].
  rewrite Hc, (IH Hs). reflexivity.
Qed.

Lemma split_length (sep : ascii) (s : string) :
  (List.length (split sep s) <? 2)%nat = negb (has_char sep s).
Proof.
  induction s as [|c s IH]; cbn [has_char split]; [reflexivity|].
  pose proof (split_not_nil sep s) as Hne.
  destruct (Ascii.eqb c sep); cbn [orb negb].
  - destruct (split sep s) as [|h t]; [congruence | reflexivity].
  - rewrite <- IH. destruct (split sep s) as [|h t]; [congruence|].
    reflexivity.
Qed.

Lemma join_snoc (sep : string) (l : list string) (x : string) :
  l <> [] ->
  String.concat sep (l ++ [x])%list = String.concat sep l ++ sep ++ x.
Proof.
  induction l as [|h t IH]; intro Hne; [congruence|].
  destruct t as [|h2 t].
  - reflexivity.
  - change (String.concat sep ((h :: h2 :: t) ++ [x])%list)
      with (h ++ sep ++ String.concat sep ((h2 :: t) ++ [x])%list).
    rewrite IH by discriminate.
    change (String.concat sep (h :: h2 :: t))
      with (h ++ sep ++ String.concat sep (h2 :: t)).
    now rewrite !str_app_assoc.
Qed.

Lemma split_replace (a b : ascii) (s : string) :
  has_char b s = false -> split b (replace a b s) = split a s.
Proof.
  induction s as [|c s IH]; cbn [has_char replace split]; [reflexivity|].
  intro H. apply orb_false_iff in H as [Hc Hs]. rewrite (IH Hs).
  destruct (Ascii.eqb c a); [now rewrite Ascii.eqb_refl | now rewrite Hc].
Qed.

Lemma del_second_last_snoc (l : list string) (x y : string) :
  del_second_last (l ++ [x; y])%list = Ok (l ++ [y])%list.
Proof.
  unfold del_second_last. rewrite length_app. cbn [List.length].
  replace (List.length l + 2 <? 2)%nat with false
    by (symmetry; apply Nat.ltb_ge; lia).
  replace (List.length l + 2 - 2)%nat with (List.length l + 0)%nat by lia.
  replace (List.length l + 2 - 1)%nat with (S (List.length l)) by lia.
  rewrite firstn_app_2, skipn_app.
  rewrite skipn_all2 by lia.
  replace (S (List.length l) - List.length l)%nat with 1%nat by lia.
  cbn [firstn skipn]. now rewrite app_nil_r.
Qed.

(** * Author and maintainer links *)

Lemma process_author_info_list (lower : string -> string)
  (l : list string) :
  _process_author_info lower (TagList l) =
  match List.map _add_link l with
  | [] => Raise IndexError
  | [x] => Ok x
  | links =>
      Ok (String.concat ", " (removelast links) ++ " & " ++ last links "")
  end.
Proof.
  unfold _process_author_info.
  destruct l as [|a [|b l]]; reflexivity.
Qed.

Lemma joined_starts_with_first (x y : string) (l : list string) :
  exists tail,
    String.concat ", " (removelast (x :: y :: l)) ++ " & "
    ++ last (x :: y :: l) "" = x ++ tail.
Proof.
  change (removelast (x :: y :: l)) with (x :: removelast (y :: l)).
  destruct (removelast (y :: l)) as [|z r]; eexists.
  - reflexivity.
  - change (String.concat ", " (x :: z :: r))
      with (x ++ ", " ++ String.concat ", " (z :: r)).
    rewrite str_app_assoc. reflexivity.
Qed.

(** X9.  [_process_author_info] raises exactly on the empty list, and then
    it is an [IndexError]; a string and a non-empty list always give a
    result. *)
Theorem process_author_info_raises (lower : string -> string)
  (author_info : tag_value) (e : exn) :
  _process_author_info lower author_info = Raise e <->
  author_info = TagList [] /\ e = IndexError.
Proof.
  destruct author_info as [s|l].
  - unfold _process_author_info.
    destruct (lower s =? "sktime developers"); cbn; split;
      intro H; try discriminate; destruct H; discriminate.
  - rewrite process_author_info_list.
    destruct l as [|a [|b l]]; cbn [List.map]; split; intro H;
      try discriminate; try (destruct H; discriminate).
    + injection H as <-. now split.
    + destruct H as [_ ->]. reflexivity.
Qed.

(** X10.  One name gives its link, two names are joined by an ampersand,
    and from three names on the first link is followed by a comma and the
    result for the remaining names. *)
Theorem process_author_info_format (lower : string -> string)
  (a b c : string) (l : list string) :
  _process_author_info lower (TagList [a]) = Ok (_add_link a)
  /\ _process_author_info lower (TagList [a; b]) =
     Ok (_add_link a ++ " & " ++ _add_link b)
  /\ exists rest,
       _process_author_info lower (TagList (b :: c :: l)) = Ok rest
       /\ _process_author_info lower (TagList (a :: b :: c :: l)) =
          Ok (_add_link a ++ ", " ++ rest).
Proof.
  split; [reflexivity|]. split; [reflexivity|].
  rewrite !process_author_info_list. cbn [List.map].
  set (la := _add_link a). set (lb := _add_link b). set (lc := _add_link c).
  set (ll := List.map _add_link l).
  eexists. split; [reflexivity|].
  change (removelast (la :: lb :: lc :: ll))
    with (la :: removelast (lb :: lc :: ll)).
  change (removelast (lb :: lc :: ll)) with (lb :: removelast (lc :: ll)).
  change (last (la :: lb :: lc :: ll) "") with (last (lb :: lc :: ll) "").
  change (String.concat ", " (la :: lb :: removelast (lc :: ll)))
    with (la ++ ", " ++ String.concat ", " (lb :: removelast (lc :: ll))).
  now rewrite !str_app_assoc.
Qed.

(** X11.  A string that is not the team name, whatever its case, is
    handled as the one-element list; a list never gets the team link, not
    even a list that holds the team name. *)
Theorem process_author_info_team (lower : string -> string) (s : string)
  (l : list string) :
  lower s <> "sktime developers" ->
  _process_author_info lower (TagStr s) =
  _process_author_info lower (TagList [s])
  /\ _process_author_info lower (TagList l) <> Ok team_link.
Proof.
  intro Hs. split.
  - unfold _process_author_info.
    apply String.eqb_neq in Hs. now rewrite Hs.
  - rewrite process_author_info_list.
    destruct l as [|a [|b l]]; cbn [List.map]; [discriminate| |].
    + unfold team_link, _add_link, dq. cbn [append]. discriminate.
    + destruct (joined_starts_with_first (_add_link a) (_add_link b)
                  (List.map _add_link l)) as [tail ->].
      unfold team_link, _add_link, dq. cbn [append]. discriminate.
Qed.

Lemma process_author_info_team_witness :
  (fun s => s) "fkiraly" <> "sktime developers"
  /\ _process_author_info (fun s => s) (TagStr "fkiraly") =
     _process_author_info (fun s => s) (TagList ["fkiraly"])
  /\ _process_author_info (fun s => s) (TagList ["sktime developers"])
     <> Ok team_link.
Proof.
  split; [discriminate|].
  apply (process_author_info_team (fun s => s) "fkiraly"
           ["sktime developers"]).
  discriminate.
Defined.

(** * The paths of an estimator class *)

Lemma modpath_of_class_str (m : string) :
  substring 8 (String.length ("<class '" ++ m ++ "'>") - 10)
    ("<class '" ++ m ++ "'>") = m.
Proof.
  rewrite !str_length_app. cbn [String.length].
  replace (8 + (String.length m + 2) - 10)%nat with (String.length m) by lia.
  cbn [append substring]. apply substring_0_app.
Qed.

(** X12.  For the string of a class [pkg.file.name], with no dot in [file]
    and [name], the module path is [pkg.file.name], the clean path drops
    the file, [pkg.name], and the import path is [pkg]; for a class
    [file.name] the clean path is [name] and the import path is empty. *)
Theorem estimator_paths_of_class (pkg file name : string) :
  has_char "." file = false -> has_char "." name = false ->
  estimator_paths ("<class '" ++ pkg ++ "." ++ file ++ "." ++ name ++ "'>")
  = Ok (pkg ++ "." ++ file ++ "." ++ name, pkg ++ "." ++ name, pkg)
  /\ estimator_paths ("<class '" ++ file ++ "." ++ name ++ "'>")
     = Ok (file ++ "." ++ name, name, "").
Proof.
  intros Hf Hn. split.
  - replace ("<class '" ++ pkg ++ "." ++ file ++ "." ++ name ++ "'>")
      with ("<class '" ++ (pkg ++ "." ++ file ++ "." ++ name) ++ "'>")
      by (now rewrite !str_app_assoc).
    unfold estimator_paths. rewrite modpath_of_class_str.
    change (pkg ++ "." ++ file ++ "." ++ name)
      with (pkg ++ String "." (file ++ String "." name)).
    rewrite !split_app, (split_no_sep _ _ Hf), (split_no_sep _ _ Hn).
    cbn [app]. rewrite del_second_last_snoc, removelast_last.
    rewrite join_snoc by apply split_not_nil.
    now rewrite (join_split "." pkg).
  - replace ("<class '" ++ file ++ "." ++ name ++ "'>")
      with ("<class '" ++ (file ++ "." ++ name) ++ "'>")
      by (now rewrite !str_app_assoc).
    unfold estimator_paths. rewrite modpath_of_class_str.
    change (file ++ "." ++ name) with (file ++ String "." name).
    rewrite split_app, (split_no_sep _ _ Hf), (split_no_sep _ _ Hn).
    reflexivity.
Qed.

Lemma estimator_paths_of_class_witness :
  has_char "." "_f1score" = false
  /\ has_char "." "F1ScoreBreakpoints" = false
  /\ estimator_paths
       ("<class '" ++ "sktime.performance_metrics.detection" ++ "."
        ++ "_f1score" ++ "." ++ "F1ScoreBreakpoints" ++ "'>")
     = Ok ("sktime.performance_metrics.detection" ++ "." ++ "_f1score"
           ++ "." ++ "F1ScoreBreakpoints",
           "sktime.performance_metrics.detection" ++ "."
           ++ "F1ScoreBreakpoints",
           "sktime.performance_metrics.detection")
  /\ estimator_paths
       ("<class '" ++ "_f1score" ++ "." ++ "F1ScoreBreakpoints" ++ "'>")
     = Ok ("_f1score" ++ "." ++ "F1ScoreBreakpoints",
           "F1ScoreBreakpoints", "").
Proof.
  split; [reflexivity|]. split; [reflexivity|].
  apply (estimator_paths_of_class "sktime.performance_metrics.detection"
           "_f1score" "F1ScoreBreakpoints"); reflexivity.
Defined.

(** X13.  [estimator_paths] raises exactly when the module path, the class
    string without its first eight and last two characters, has no dot;
    the exception is the [IndexError] of the [del]. *)
Theorem estimator_paths_raises (cls_str : string) (e : exn) :
  estimator_paths cls_str = Raise e <->
  has_char "."
    (substring 8 (String.length cls_str - 10) cls_str) = false
  /\ e = IndexError.
Proof.
  unfold estimator_paths, del_second_last. rewrite split_length.
  destruct (has_char "." _); cbn [negb]; split; intro H;
    try discriminate; try (destruct H; discriminate).
  - injection H as <-. now split.
  - destruct H as [_ ->]. reflexivity.
Qed.

(** * The main object type *)

(** X14.  When the menu list holds exactly the object types that are keys
    of [tags_by_object_type], in any order, [first_obj_type_in_register]
    raises exactly for an empty list of object types, and a type it
    returns is one of the object types and is a key whenever one of the
    object types is. *)
Theorem first_obj_type_member (menu : list string -> list string)
  (tag : tag_value) :
  (forall x, In x (menu (object_types_of tag)) <->
             In x (object_types_of tag) /\ In x tags_by_object_type_keys) ->
  (forall e, first_obj_type_in_register menu tag = Raise e <->
             object_types_of tag = [] /\ e = IndexError)
  /\ forall x,
       first_obj_type_in_register menu tag = Ok x ->
       In x (object_types_of tag)
       /\ ((exists y, In y (object_types_of tag)
                      /\ In y tags_by_object_type_keys) ->
           In x tags_by_object_type_keys).
Proof.
  intro Hm. unfold first_obj_type_in_register.
  destruct (menu (object_types_of tag)) as [|x0 r] eqn:Em.
  - destruct (object_types_of tag) as [|t ts] eqn:Et; split.
    + intro e. split; intro H.
      * injection H as <-. now split.
      * destruct H as [_ ->]. reflexivity.
    + discriminate.
    + intro e. split; intro H; [discriminate | destruct H; discriminate].
    + intros x H. injection H as <-. split; [now left|].
      intros [y Hy]. apply Hm in Hy. destruct Hy.
  - assert (H0 : In x0 (object_types_of tag)
                 /\ In x0 tags_by_object_type_keys)
      by (apply Hm; now left).
    split.
    + intro e. split; intro H; [discriminate|].
      destruct H as [Hnil _]. rewrite Hnil in H0. destruct H0 as [[] _].
    + intros x H. injection H as <-. split; [apply H0|]. intros _. apply H0.
Qed.

Lemma in_keys_iff (x : string) :
  existsb (String.eqb x) tags_by_object_type_keys = true <->
  In x tags_by_object_type_keys.
Proof.
  rewrite existsb_exists. split.
  - intros [y [Hy Heq]]. apply String.eqb_eq in Heq. now subst.
  - intro H. exists x. split; [exact H | apply String.eqb_refl].
Qed.

Lemma menu_in_list_order_spec (object_types : list string) (x : string) :
  In x (menu_in_list_order object_types) <->
  In x object_types /\ In x tags_by_object_type_keys.
Proof.
  unfold menu_in_list_order. rewrite nodup_In, filter_In, in_keys_iff.
  reflexivity.
Qed.

Lemma first_obj_type_member_witness :
  (forall x,
     In x (menu_in_list_order
             (object_types_of (TagList ["metric_detection"; "metric"]))) <->
     In x (object_types_of (TagList ["metric_detection"; "metric"]))
     /\ In x tags_by_object_type_keys)
  /\ (forall e,
        first_obj_type_in_register menu_in_list_order
          (TagList ["metric_detection"; "metric"]) = Raise e <->
        object_types_of (TagList ["metric_detection"; "metric"]) = []
        /\ e = IndexError)
  /\ forall x,
       first_obj_type_in_register menu_in_list_order
         (TagList ["metric_detection"; "metric"]) = Ok x ->
       In x (object_types_of (TagList ["metric_detection"; "metric"]))
       /\ ((exists y,
              In y (object_types_of (TagList ["metric_detection"; "metric"]))
              /\ In y tags_by_object_type_keys) ->
           In x tags_by_object_type_keys).
Proof.
  split; [intro x; apply menu_in_list_order_spec|].
  apply (first_obj_type_member menu_in_list_order
           (TagList ["metric_detection"; "metric"])).
  intro x. apply menu_in_list_order_spec.
Defined.

(** X15.  When only one of the object types is a key of
    [tags_by_object_type], that type is the main type, wherever it stands
    in the list; so the class with the object types [metric_detection] and
    [metric] is filed under [metric]. *)
Theorem first_obj_type_single (menu : list string -> list string)
  (tag : tag_value) (x : string) :
  (forall y, In y (menu (object_types_of tag)) <->
             In y (object_types_of tag) /\ In y tags_by_object_type_keys) ->
  In x (object_types_of tag) -> In x tags_by_object_type_keys ->
  (forall y, In y (object_types_of tag) ->
             In y tags_by_object_type_keys -> y = x) ->
  first_obj_type_in_register menu tag = Ok x.
Proof.
  intros Hm Hx Hk Huniq. unfold first_obj_type_in_register.
  destruct (menu (object_types_of tag)) as [|x0 r] eqn:Em.
  - assert (Hin : In x []) by (apply Hm; now split). destruct Hin.
  - assert (H0 : In x0 (object_types_of tag)
                 /\ In x0 tags_by_object_type_keys)
      by (apply Hm; now left).
    destruct H0 as [H1 H2]. now rewrite (Huniq x0 H1 H2).
Qed.

Lemma first_obj_type_single_witness :
  (forall y,
     In y (menu_in_list_order
             (object_types_of (TagList ["metric_detection"; "metric"]))) <->
     In y (object_types_of (TagList ["metric_detection"; "metric"]))
     /\ In y tags_by_object_type_keys)
  /\ In "metric" (object_types_of (TagList ["metric_detection"; "metric"]))
  /\ In "metric" tags_by_object_type_keys
  /\ (forall y,
        In y (object_types_of (TagList ["metric_detection"; "metric"])) ->
        In y tags_by_object_type_keys -> y = "metric")
  /\ first_obj_type_in_register menu_in_list_order
       (TagList ["metric_detection"; "metric"]) = Ok "metric".
Proof.
  assert (H1 : In "metric"
                 (object_types_of (TagList ["metric_detection"; "metric"])))
    by (right; now left).
  assert (H2 : In "metric" tags_by_object_type_keys)
    by (apply in_keys_iff; reflexivity).
  assert (H3 : forall y,
             In y (object_types_of (TagList ["metric_detection"; "metric"]))
             -> In y tags_by_object_type_keys -> y = "metric").
  { intros y [<-|[<-|[]]] Hk; [|reflexivity].
    apply in_keys_iff in Hk. discriminate Hk. }
  split; [intro y; apply menu_in_list_order_spec|].
  split; [exact H1|]. split; [exact H2|]. split; [exact H3|].
  apply (first_obj_type_single menu_in_list_order
           (TagList ["metric_detection"; "metric"]) "metric");
    [intro y; apply menu_in_list_order_spec | exact H1 | exact H2 | exact H3].
Defined.

(** * Links to the source *)

Lemma prefix_app (a b : string) : prefix a (a ++ b) = true.
Proof.
  induction a as [|x a IH]; cbn [append].
  - destruct b; reflexivity.
  - cbn [prefix]. destruct (ascii_dec x x); [exact IH | congruence].
Qed.

Lemma prefix_app3 (a b c d : string) :
  prefix (a ++ b ++ c) (a ++ b ++ c ++ d) = true.
Proof.
  replace (a ++ b ++ c ++ d) with ((a ++ b ++ c) ++ d)
    by (now rewrite !str_app_assoc).
  apply prefix_app.
Qed.

(** X16.  [linkcode_resolve] gives no link for a domain other than [py],
    whatever the dictionary holds, and for an empty module name; it raises
    exactly for the domain [py] with no [module] key, a [KeyError]; and a
    link it gives starts with the GitHub address of the current version. *)
Theorem linkcode_resolve_cases (CURRENT_VERSION : string)
  (find_source : option (string * Z * Z)) (domain : string)
  (info : string -> option string) :
  (domain <> "py" \/ info "module" = Some "" ->
   linkcode_resolve CURRENT_VERSION find_source domain info = Ok None)
  /\ (forall e,
        linkcode_resolve CURRENT_VERSION find_source domain info = Raise e
        <-> domain = "py" /\ info "module" = None /\ e = KeyError)
  /\ forall url,
       linkcode_resolve CURRENT_VERSION find_source domain info
       = Ok (Some url) ->
       prefix ("https://github.com/sktime/sktime/blob/"
               ++ CURRENT_VERSION ++ "/") url = true
       /\ domain = "py"
       /\ exists module, info "module" = Some module /\ module <> "".
Proof.
  unfold linkcode_resolve.
  destruct (String.eqb_spec domain "py") as [Hd|Hd]; cbn [negb].
  - destruct (info "module") as [module|] eqn:Em.
    + destruct (String.eqb_spec module "") as [Hm|Hm].
      * split; [reflexivity|]. split; [|discriminate].
        intro e. split; intro H; [discriminate|].
        destruct H as [_ [H _]]. discriminate.
      * split; [|split].
        -- intros [H|H]; [contradiction | congruence].
        -- intro e. split; intro H; [discriminate|].
           destruct H as [_ [H _]]. discriminate.
        -- set (filename := match find_source with
                             | Some _ => _
                             | None => _
                             end).
           clearbody filename.
           intros url H. injection H as <-. split; [|split].
           ++ exact (prefix_app3 "https://github.com/sktime/sktime/blob/"
                       CURRENT_VERSION "/" filename).
           ++ exact Hd.
           ++ exists module. now split.
    + split; [|split].
      * intros [H|H]; [contradiction | discriminate].
      * intro e. split; intro H.
        -- injection H as <-. now repeat split.
        -- destruct H as [_ [_ ->]]. reflexivity.
      * discriminate.
  - split; [reflexivity|]. split; [|discriminate].
    intro e. split; intro H; [discriminate|].
    destruct H as [H _]. contradiction.
Qed.

(** X17.  When the source cannot be found, the link of a module, for the
    domain [py], is the address of the current version followed by the
    module name with every dot turned into a slash and [.py]; for a name
    without slash the directories of that path are the dotted parts of the
    name. *)
Theorem linkcode_resolve_fallback (CURRENT_VERSION module : string)
  (info : string -> option string) :
  info "module" = Some module -> module <> "" ->
  has_char "/" module = false ->
  linkcode_resolve CURRENT_VERSION None "py" info =
  Ok (Some ("https://github.com/sktime/sktime/blob/" ++ CURRENT_VERSION
            ++ "/" ++ replace "." "/" module ++ ".py"))
  /\ split "/" (replace "." "/" module) = split "." module
  /\ has_char "." (replace "." "/" module) = false.
Proof.
  intros Hi Hm Hs. split; [|split].
  - unfold linkcode_resolve. cbn [String.eqb negb]. rewrite Hi.
    apply String.eqb_neq in Hm. now rewrite Hm.
  - now apply split_replace.
  - clear. induction module as [|c m IH]; cbn [replace has_char];
      [reflexivity|].
    rewrite IH. destruct (Ascii.eqb_spec c ".") as [->|Hc]; [reflexivity|].
    apply Ascii.eqb_neq in Hc. now rewrite Hc.
Qed.

Lemma linkcode_resolve_fallback_witness :
  (fun k => if k =? "module" then Some "sktime.registry" else None)
    "module" = Some "sktime.registry"
  /\ "sktime.registry" <> ""
  /\ has_char "/" "sktime.registry" = false
  /\ linkcode_resolve "main" None "py"
       (fun k => if k =? "module" then Some "sktime.registry" else None) =
     Ok (Some ("https://github.com/sktime/sktime/blob/" ++ "main"
               ++ "/" ++ replace "." "/" "sktime.registry" ++ ".py"))
  /\ split "/" (replace "." "/" "sktime.registry")
     = split "." "sktime.registry"
  /\ has_char "." (replace "." "/" "sktime.registry") = false.
Proof.
  split; [reflexivity|]. split; [discriminate|]. split; [reflexivity|].
  apply (linkcode_resolve_fallback "main" "sktime.registry"
           (fun k => if k =? "module" then Some "sktime.registry" else None));
    [reflexivity | discriminate | reflexivity].
Defined.
